(** * Website Traffic Trend Analyzer: the filter-and-aggregate callback

    A shallow embedding of [src/index.py]: the constructor call that
    builds the base frame [df] (line 17), the dropdown options (lines 41
    and 52) and the callback [update_dashboard] (lines 80-125), which
    narrows the frame by two dropdown selections and derives three
    grouped tables that are handed to the plotting calls.

    The frame is an argument of every function below.  The columns the
    module writes down for itself (lines 7-14) are not modelled: line 11
    asks a pandas [Series] for a method [sin], which it does not have.

    The pandas operations the callback uses are written out as list
    functions:
    - a frame is the list of its rows, in index order;
    - [isin] / boolean indexing is [filter];
    - [groupby(k)["visits"].sum().reset_index()] yields one row per
      distinct key, keys ascending ([sort=True] is the default), each with
      the sum of the group's visits in the column's 64-bit type;
    - [sort_values(by="visits", ascending=False)] reverses the table,
      sorts it ascending and reverses the outcome, as pandas' [nargsort]
      does. *)

From Stdlib Require Import ZArith List String Ascii Bool Lia.
From Stdlib Require Import Sorting.Sorted Sorting.Permutation.
From Stdlib Require Import Structures.OrderedTypeEx.
Import ListNotations.

Open Scope Z_scope.

(** ** The 64-bit column type

    [pd.DataFrame] stores a list of Python integers that all fit 64 bits
    as an [int64] column; sums over such a column are taken in that type
    and wrap around silently. *)

Module Int64.

Definition min_int : Z := - 2 ^ 63.
Definition max_int : Z := 2 ^ 63 - 1.

Definition in_range (z : Z) : Prop := min_int <= z <= max_int.

Definition wrap (z : Z) : Z := (z + 2 ^ 63) mod 2 ^ 64 - 2 ^ 63.

Definition add (a b : Z) : Z := wrap (a + b).

(** [Series.sum()] / the group kernel: values are added one after the
    other, starting from zero. *)
Definition sum (l : list Z) : Z := fold_left add l 0.

End Int64.

(** The sum of a list of integers, without any wrap-around. *)
Definition Zsum (l : list Z) : Z := fold_right Z.add 0 l.

(** ** Timestamps

    The [date] column holds [datetime64[ns]] values: nanoseconds since
    1970-01-01, compared as integers. *)

Definition Timestamp : Type := Z.

Definition days_from_civil (y m d : Z) : Z :=
  let y' := if m <=? 2 then y - 1 else y in
  let era := y' / 400 in
  let yoe := y' - era * 400 in
  let mp := (m + 9) mod 12 in
  let doy := (153 * mp + 2) / 5 + d - 1 in
  let doe := yoe * 365 + yoe / 4 - yoe / 100 + doy in
  era * 146097 + doe - 719468.

Definition ns_per_day : Z := 86400 * 10 ^ 9.

Definition mk_date (y m d : Z) : Timestamp := days_from_civil y m d * ns_per_day.

(** ** Rows, columns and frames

    [visits] is a value of an [int64] column, between -2^63 and 2^63 - 1.
    A list of visits that does not fit is stored by pandas in a column of
    another type and is outside this model; the statements about sums say
    which range they need. *)

Record Row : Type := mkRow {
  date : Timestamp;
  page : string;
  visits : Z;
  device : string;
  location : string
}.

Definition Frame : Type := list Row.

(** The dictionary of columns given to [pd.DataFrame] (line 17). *)
Record Columns : Type := mkColumns {
  col_date : list Timestamp;
  col_page : list string;
  col_visits : list Z;
  col_device : list string;
  col_location : list string
}.

Inductive result (A : Type) : Type :=
| Ok (a : A)
| ValueError.

Arguments Ok {A} a.
Arguments ValueError {A}.

Fixpoint zip_rows (ds : list Timestamp) (ps : list string) (vs : list Z)
  (dv : list string) (lc : list string) : Frame :=
  match ds, ps, vs, dv, lc with
  | d :: ds', p :: ps', v :: vs', e :: dv', l :: lc' =>
      mkRow d p v e l :: zip_rows ds' ps' vs' dv' lc'
  | _, _, _, _, _ => []
  end.

Definition same_length (c : Columns) : bool :=
  let n := List.length (col_date c) in
  (List.length (col_page c) =? n)%nat && (List.length (col_visits c) =? n)%nat
  && (List.length (col_device c) =? n)%nat && (List.length (col_location c) =? n)%nat.

(** [pd.DataFrame(columns)]: the only failure of the constructor is the
    [ValueError] raised for columns of different lengths; nothing in
    lines 7-17 looks at the number of rows. *)
Definition DataFrame (c : Columns) : result Frame :=
  if same_length c
  then Ok (zip_rows (col_date c) (col_page c) (col_visits c)
                    (col_device c) (col_location c))
  else ValueError.

(** ** Group keys

    A column that is grouped on needs equality and the ascending order of
    its values: integers for timestamps, code-point order for strings. *)

Class Key (K : Type) : Type := {
  key_eqb : K -> K -> bool;
  key_ltb : K -> K -> bool
}.

Class KeyOrder (K : Type) `{Key K} : Prop := {
  key_eqb_eq : forall a b : K, key_eqb a b = true <-> a = b;
  key_ltb_irrefl : forall a : K, key_ltb a a = false;
  key_ltb_trans : forall a b c : K,
    key_ltb a b = true -> key_ltb b c = true -> key_ltb a c = true;
  key_ltb_total : forall a b : K,
    key_ltb a b = false -> key_ltb b a = false -> a = b
}.

#[export] Instance Key_Timestamp : Key Timestamp :=
  {| key_eqb := Z.eqb; key_ltb := Z.ltb |}.

#[export] Instance Key_string : Key string :=
  {| key_eqb := String.eqb; key_ltb := String.ltb |}.

Definition key_lt {K : Type} `{Key K} (a b : K) : Prop := key_ltb a b = true.

(** ** Sorting

    numpy's default sort ([kind="quicksort"]) sorts a table of at most 16
    rows by one insertion pass: each element in turn is moved left past
    the elements that are strictly greater.  Longer tables are first
    split around pivots, which can change the order of rows with equal
    visits.  The insertion pass stands here for the sort at every length:
    it puts the visits in the same order as numpy does, and it agrees
    with numpy on the whole table wherever no two rows have equal visits
    or the table has at most 16 rows.  No statement below says anything
    about the order of equal visits.  Group keys are distinct, so their
    sorted order does not depend on the algorithm. *)

Section Sorting.
Context {A : Type} (ltb : A -> A -> bool).

Fixpoint insert (x : A) (sorted : list A) : list A :=
  match sorted with
  | [] => [x]
  | y :: rest => if ltb x y then x :: y :: rest else y :: insert x rest
  end.

Definition isort (l : list A) : list A :=
  fold_left (fun acc x => insert x acc) l [].

End Sorting.

(** Ascending for [ltb]; elements that [ltb] does not separate are in
    the order [tie]. *)
Definition stable_order {A : Type} (ltb : A -> A -> bool) (tie : A -> A -> Prop)
  (a b : A) : Prop :=
  ltb a b = true \/ (ltb b a = false /\ tie a b).

(** ** Grouping *)

Section GroupBy.
Context {K : Type} `{Key K}.

(** The distinct values of a column in order of first appearance
    ([Series.unique()], and the first step of [groupby]). *)
Fixpoint unique (l : list K) : list K :=
  match l with
  | [] => []
  | k :: rest => k :: filter (fun x => negb (key_eqb x k)) (unique rest)
  end.

Definition group_keys (key : Row -> K) (fr : Frame) : list K :=
  isort key_ltb (unique (map key fr)).

Definition group (key : Row -> K) (fr : Frame) (k : K) : Frame :=
  filter (fun r => key_eqb (key r) k) fr.

(** [fr.groupby(key)["visits"].sum().reset_index()] *)
Definition groupby_sum (key : Row -> K) (fr : Frame) : list (K * Z) :=
  map (fun k => (k, Int64.sum (map visits (group key fr k))))
      (group_keys key fr).

End GroupBy.

(** [table.sort_values(by="visits", ascending=False)] *)
Definition sort_values_desc {K : Type} (t : list (K * Z)) : list (K * Z) :=
  rev (isort (fun a b => snd a <? snd b) (rev t)).

(** ** The callback *)

(** A dropdown with [multi=True] reports [None] or a list of values. *)
Definition Selection : Type := option (list string).

(** Python truthiness of a selection: [None] and [[]] are false. *)
Definition truthy (s : Selection) : bool :=
  match s with
  | Some (_ :: _) => true
  | _ => false
  end.

Definition allowed (s : Selection) : list string :=
  match s with
  | Some l => l
  | None => []
  end.

(** [column.isin(values)] on one cell *)
Definition isin (values : list string) (x : string) : bool :=
  existsb (String.eqb x) values.

(** Lines 87-95. *)
Definition select (df : Frame) (selected_devices selected_locations : Selection)
  : Frame :=
  let filtered_df := df in
  let filtered_df :=
    if truthy selected_devices
    then filter (fun r => isin (allowed selected_devices) (device r)) filtered_df
    else filtered_df in
  let filtered_df :=
    if truthy selected_locations
    then filter (fun r => isin (allowed selected_locations) (location r)) filtered_df
    else filtered_df in
  filtered_df.

Record Tables : Type := mkTables {
  traffic_by_date : list (Timestamp * Z);
  top_pages : list (string * Z);
  device_data : list (string * Z)
}.

(** Lines 100, 109 and 120 on a frame that is already narrowed.  The three
    figures are drawn from exactly these tables. *)
Definition aggregate (filtered_df : Frame) : Tables :=
  {| traffic_by_date := groupby_sum date filtered_df;
     top_pages := sort_values_desc (groupby_sum page filtered_df);
     device_data := groupby_sum device filtered_df |}.

Definition update_dashboard (df : Frame)
  (selected_devices selected_locations : Selection) : Tables :=
  aggregate (select df selected_devices selected_locations).

(** ** The module state

    [df] is a module-level name bound to a frame object; the callback
    reads it through that name.  Objects live in a heap, names hold
    references.  [df.copy()] and [fr[mask]] both hand back a fresh
    object; the callback has no statement that writes into an existing
    one. *)

Definition ref : Type := nat.

Definition Heap : Type := list Frame.

Definition M (A : Type) : Type := Heap -> A * Heap.

Definition ret {A : Type} (a : A) : M A := fun h => (a, h).

Definition bind {A B : Type} (m : M A) (k : A -> M B) : M B :=
  fun h => let (a, h') := m h in k a h'.

Notation "x <- m ;; k" := (bind m (fun x => k))
  (at level 61, m at next level, right associativity).

Definition alloc (fr : Frame) : M ref :=
  fun h => (List.length h, h ++ [fr]).

Definition load (r : ref) : M Frame :=
  fun h => (nth r h [], h).

(** [fr.copy()] *)
Definition copy (r : ref) : M ref :=
  fr <- load r ;; alloc fr.

(** [fr[mask]] *)
Definition getitem (r : ref) (mask : Row -> bool) : M ref :=
  fr <- load r ;; alloc (filter mask fr).

Definition update_dashboard_m (df : ref)
  (selected_devices selected_locations : Selection) : M Tables :=
  filtered_df <- copy df ;;
  filtered_df <-
    (if truthy selected_devices
     then getitem filtered_df
            (fun r => isin (allowed selected_devices) (device r))
     else ret filtered_df) ;;
  filtered_df <-
    (if truthy selected_locations
     then getitem filtered_df
            (fun r => isin (allowed selected_locations) (location r))
     else ret filtered_df) ;;
  fr <- load filtered_df ;;
  ret (aggregate fr).

(** Any number of filter changes, one callback run each. *)
Fixpoint run_calls (df : ref) (calls : list (Selection * Selection))
  : M (list Tables) :=
  match calls with
  | [] => ret []
  | (sd, sl) :: rest =>
      t <- update_dashboard_m df sd sl ;;
      ts <- run_calls df rest ;;
      ret (t :: ts)
  end.

(** ** Vocabulary of the statements *)

(** A row passes the selection step. *)
Definition keeps (selected_devices selected_locations : Selection) (r : Row)
  : bool :=
  (negb (truthy selected_devices) || isin (allowed selected_devices) (device r))
  && (negb (truthy selected_locations)
      || isin (allowed selected_locations) (location r)).

(** No restriction on a dimension: the selection is absent or empty. *)
Definition unrestricted (s : Selection) : Prop := s = None \/ s = Some [].

Definition totals {K : Type} (t : list (K * Z)) : list Z := map snd t.

Definition keys {K : Type} (t : list (K * Z)) : list K := map fst t.

(** Position of the first occurrence of a page in a frame. *)
Fixpoint first_index (p : string) (fr : Frame) : nat :=
  match fr with
  | [] => O
  | r :: rest => if String.eqb (page r) p then O else S (first_index p rest)
  end.

(** Descending totals; equal totals in the order in which the frame [fr]
    first shows their pages. *)
Definition desc_then_encounter (fr : Frame) (a b : string * Z) : Prop :=
  snd b <= snd a /\
  (snd a = snd b -> (first_index (fst a) fr < first_index (fst b) fr)%nat).

(** The three grand totals agree with each other and with the selection. *)
Definition counts_conserved (df : Frame) (sd sl : Selection) : Prop :=
  let sel := select df sd sl in
  let out := update_dashboard df sd sl in
  Zsum (totals (traffic_by_date out)) = Zsum (totals (top_pages out)) /\
  Zsum (totals (top_pages out)) = Zsum (totals (device_data out)) /\
  Zsum (totals (device_data out)) = Zsum (map visits sel).

Definition example_df : Frame :=
  [ mkRow (mk_date 2025 7 1) "Home" 10 "Desktop" "USA";
    mkRow (mk_date 2025 7 1) "Products" 5 "Mobile" "USA";
    mkRow (mk_date 2025 7 2) "Home" 20 "Desktop" "UK" ]%string.

(** Two pages with the same total, the alphabetically later one first. *)
Definition tie_df : Frame :=
  [ mkRow (mk_date 2025 7 1) "Products" 10 "Desktop" "USA";
    mkRow (mk_date 2025 7 1) "Home" 10 "Desktop" "USA" ]%string.

(** Two rows of one day whose visits exceed the 64-bit range together. *)
Definition overflow_df : Frame :=
  [ mkRow (mk_date 2025 7 1) "Home" Int64.max_int "Desktop" "USA";
    mkRow (mk_date 2025 7 1) "Products" 1 "Mobile" "USA" ]%string.

Definition empty_columns : Columns := mkColumns [] [] [] [] [].

Definition to_columns (fr : Frame) : Columns :=
  {| col_date := map date fr;
     col_page := map page fr;
     col_visits := map visits fr;
     col_device := map device fr;
     col_location := map location fr |}.

Definition empty_tables : Tables :=
  {| traffic_by_date := []; top_pages := []; device_data := [] |}.

(** ** The dropdown options (lines 41 and 52)

    [[{"label": v, "value": v} for v in df[column].unique()]] *)

Record DropdownOption : Type := mkOption {
  label : string;
  value : string
}.

Definition dropdown_options (column : Row -> string) (df : Frame)
  : list DropdownOption :=
  map (fun v => {| label := v; value := v |}) (unique (map column df)).

(** A row without its visit count. *)
Definition coordinates (r : Row) : Timestamp * string * string * string :=
  (date r, page r, device r, location r).

(** * Properties *)

(** ** 64-bit sums *)

Lemma wrap_in_range (z : Z) : Int64.in_range z -> Int64.wrap z = z.
Proof.
  unfold Int64.in_range, Int64.wrap, Int64.min_int, Int64.max_int.
  intros Hz. rewrite Z.mod_small; lia.
Qed.

Lemma wrap_add_l (a b : Z) : Int64.wrap (Int64.wrap a + b) = Int64.wrap (a + b).
Proof.
  unfold Int64.wrap.
  replace ((a + 2 ^ 63) mod 2 ^ 64 - 2 ^ 63 + b + 2 ^ 63)
    with ((a + 2 ^ 63) mod 2 ^ 64 + b) by lia.
  rewrite Zplus_mod_idemp_l. f_equal. f_equal. lia.
Qed.

Lemma wrap_add_r (a b : Z) : Int64.wrap (a + Int64.wrap b) = Int64.wrap (a + b).
Proof. rewrite Z.add_comm, wrap_add_l. f_equal. lia. Qed.

Lemma fold_add_wrap (l : list Z) (a : Z) :
  fold_left Int64.add l (Int64.wrap a) = Int64.wrap (a + Zsum l).
Proof.
  revert a. induction l as [|x l IH]; intros a; simpl.
  - f_equal. lia.
  - unfold Int64.add at 2. rewrite wrap_add_l, IH. f_equal. lia.
Qed.

(** The column sum is the exact sum, wrapped once. *)
Lemma sum_wrap (l : list Z) : Int64.sum l = Int64.wrap (Zsum l).
Proof.
  unfold Int64.sum. change 0 with (Int64.wrap 0) at 1.
  rewrite fold_add_wrap. reflexivity.
Qed.

Lemma Zsum_app (l1 l2 : list Z) : Zsum (l1 ++ l2) = Zsum l1 + Zsum l2.
Proof. induction l1 as [|x l1 IH]; simpl; lia. Qed.

Lemma Zsum_nonneg (l : list Z) : Forall (fun x => 0 <= x) l -> 0 <= Zsum l.
Proof. induction 1; simpl; lia. Qed.

Lemma Zsum_perm (l1 l2 : list Z) : Permutation l1 l2 -> Zsum l1 = Zsum l2.
Proof. induction 1; simpl; lia. Qed.

Lemma wrap_Zsum_wrap (l : list Z) :
  Int64.wrap (Zsum (map Int64.wrap l)) = Int64.wrap (Zsum l).
Proof.
  induction l as [|x l IH]; simpl; [reflexivity|].
  rewrite wrap_add_l, <- wrap_add_r, IH, wrap_add_r. reflexivity.
Qed.

(** ** The two key orders *)

#[export] Instance KeyOrder_Timestamp : KeyOrder Timestamp.
Proof.
  split; simpl.
  - intros a b. apply Z.eqb_eq.
  - intros a. apply Z.ltb_irrefl.
  - intros a b c H1 H2. apply Z.ltb_lt in H1, H2. apply Z.ltb_lt. lia.
  - intros a b H1 H2. apply Z.ltb_ge in H1, H2. lia.
Qed.

Lemma string_ltb_lt (a b : string) :
  String.ltb a b = true <-> String_as_OT.lt a b.
Proof.
  rewrite <- String_as_OT.cmp_lt. unfold String.ltb, String_as_OT.cmp.
  destruct (String.compare a b); split; congruence.
Qed.

#[export] Instance KeyOrder_string : KeyOrder string.
Proof.
  split; simpl.
  - intros a b. apply String.eqb_eq.
  - intros a. destruct (String.ltb a a) eqn:E; [|reflexivity].
    apply string_ltb_lt in E. exfalso.
    exact (String_as_OT.lt_not_eq _ _ E eq_refl).
  - intros a b c H1 H2. apply string_ltb_lt in H1, H2. apply string_ltb_lt.
    exact (String_as_OT.lt_trans _ _ _ H1 H2).
  - intros a b. unfold String.ltb. rewrite (String.compare_antisym a b).
    destruct (String.compare b a) eqn:E; simpl; intros H1 H2; try discriminate.
    symmetry. apply String.compare_eq_iff. exact E.
Qed.

Section KeyFacts.
Context {K : Type} `{KeyOrder K}.

Lemma key_eqb_refl (a : K) : key_eqb a a = true.
Proof. apply key_eqb_eq. reflexivity. Qed.

Lemma key_eqb_neq (a b : K) : key_eqb a b = false <-> a <> b.
Proof.
  split.
  - intros E Hab. apply key_eqb_eq in Hab. congruence.
  - intros Hab. destruct (key_eqb a b) eqn:E; [|reflexivity].
    apply key_eqb_eq in E. contradiction.
Qed.

Lemma key_ltb_asym (a b : K) : key_ltb a b = true -> key_ltb b a = false.
Proof.
  intros Hab. destruct (key_ltb b a) eqn:E; [|reflexivity].
  pose proof (key_ltb_trans _ _ _ Hab E) as Haa.
  rewrite key_ltb_irrefl in Haa. discriminate.
Qed.

Lemma key_ltb_le_trans (x y z : K) :
  key_ltb x y = true -> key_ltb z y = false -> key_ltb x z = true.
Proof.
  intros Hxy Hzy. destruct (key_ltb y z) eqn:E.
  - exact (key_ltb_trans _ _ _ Hxy E).
  - rewrite <- (key_ltb_total _ _ E Hzy). exact Hxy.
Qed.

Lemma key_lt_neq (a b : K) : key_lt a b -> a <> b.
Proof.
  unfold key_lt. intros Hab ->. rewrite key_ltb_irrefl in Hab. discriminate.
Qed.

End KeyFacts.

(** ** Insertion sort: permutation, order, stability *)

Lemma StronglySorted_snoc {A : Type} (R : A -> A -> Prop) (l : list A) (x : A) :
  StronglySorted R l -> Forall (fun y => R y x) l -> StronglySorted R (l ++ [x]).
Proof.
  induction 1 as [|y l Hl IH Hy]; intros Hx; simpl.
  - constructor; constructor.
  - inversion Hx as [|? ? Hyx Hlx]; subst. constructor.
    + apply IH. exact Hlx.
    + apply Forall_app. split; [exact Hy | constructor; [exact Hyx | constructor]].
Qed.

Lemma StronglySorted_rev {A : Type} (R : A -> A -> Prop) (l : list A) :
  StronglySorted R l -> StronglySorted (fun a b => R b a) (rev l).
Proof.
  induction 1 as [|y l Hl IH Hy]; simpl.
  - constructor.
  - apply StronglySorted_snoc; [exact IH|].
    apply Forall_rev. exact Hy.
Qed.

Lemma StronglySorted_weaken {A : Type} (R S : A -> A -> Prop) (l : list A) :
  (forall a b, In a l -> In b l -> R a b -> S a b) ->
  StronglySorted R l -> StronglySorted S l.
Proof.
  intros HRS Hl. induction Hl as [|y l Hl IH Hy]; constructor.
  - apply IH. intros a b Ha Hb. apply HRS; right; assumption.
  - rewrite Forall_forall in *. intros z Hz.
    apply HRS; [left; reflexivity | right; exact Hz | apply Hy; exact Hz].
Qed.

Lemma NoDup_StronglySorted {A : Type} (l : list A) :
  NoDup l <-> StronglySorted (fun a b => a <> b) l.
Proof.
  split; induction 1 as [|x l H1 H2 IH]; constructor; auto.
  - rewrite Forall_forall. intros y Hy ->. contradiction.
  - rewrite Forall_forall in IH. intros Hx. exact (IH x Hx eq_refl).
Qed.

Section SortingFacts.
Context {A : Type} (ltb : A -> A -> bool).

Lemma insert_perm (x : A) (l : list A) : Permutation (insert ltb x l) (x :: l).
Proof.
  induction l as [|y l IH]; simpl; [reflexivity|].
  destruct (ltb x y); [reflexivity|].
  rewrite IH. apply perm_swap.
Qed.

Lemma fold_insert_perm (todo acc : list A) :
  Permutation (fold_left (fun acc x => insert ltb x acc) todo acc) (acc ++ todo).
Proof.
  revert acc. induction todo as [|x todo IH]; intros acc; simpl.
  - rewrite app_nil_r. reflexivity.
  - rewrite IH, insert_perm. apply Permutation_middle.
Qed.

Lemma isort_perm (l : list A) : Permutation (isort ltb l) l.
Proof. unfold isort. rewrite fold_insert_perm. reflexivity. Qed.

(** [tie] is the order the input comes in; the outcome is ascending for
    [ltb], and elements that [ltb] does not separate keep the input
    order. *)
Context (tie : A -> A -> Prop).
Let stable_order := stable_order ltb tie.
Hypothesis ltb_asym : forall x y, ltb x y = true -> ltb y x = false.
Hypothesis ltb_le_trans :
  forall x y z, ltb x y = true -> ltb z y = false -> ltb x z = true.

Lemma insert_sorted (x : A) (acc : list A) :
  StronglySorted stable_order acc ->
  Forall (fun y => tie y x) acc ->
  StronglySorted stable_order (insert ltb x acc).
Proof.
  induction 1 as [|y acc Hacc IH Hy]; intros Hx; simpl.
  - constructor; constructor.
  - inversion Hx as [|? ? Hyx Haccx]; subst.
    destruct (ltb x y) eqn:E.
    + constructor; [constructor; assumption|].
      constructor; [left; exact E|].
      rewrite Forall_forall in *. intros z Hz. left.
      apply (ltb_le_trans x y z E).
      destruct (Hy z Hz) as [Hlt | [Hge _]]; [apply ltb_asym; exact Hlt | exact Hge].
    + constructor; [apply IH; exact Haccx|].
      rewrite Forall_forall in *. intros z Hz.
      apply (Permutation_in _ (insert_perm x acc)) in Hz.
      destruct Hz as [<- | Hz]; [|apply Hy; exact Hz].
      destruct (ltb y x) eqn:E'; [left; exact E' | right; split; [exact E | exact Hyx]].
Qed.

Lemma fold_insert_sorted (todo acc : list A) :
  StronglySorted stable_order acc ->
  StronglySorted tie todo ->
  (forall y x, In y acc -> In x todo -> tie y x) ->
  StronglySorted stable_order (fold_left (fun acc x => insert ltb x acc) todo acc).
Proof.
  revert acc. induction todo as [|x todo IH]; intros acc Hacc Htodo Hcross; simpl.
  - exact Hacc.
  - inversion Htodo as [|? ? Htodo' Hx]; subst. apply IH.
    + apply insert_sorted; [exact Hacc|].
      rewrite Forall_forall. intros y Hy. apply Hcross; [exact Hy | left; reflexivity].
    + exact Htodo'.
    + intros y z Hy Hz. apply (Permutation_in _ (insert_perm x acc)) in Hy.
      destruct Hy as [<- | Hy].
      * rewrite Forall_forall in Hx. apply Hx. exact Hz.
      * apply Hcross; [exact Hy | right; exact Hz].
Qed.

Lemma isort_stable (l : list A) :
  StronglySorted tie l -> StronglySorted stable_order (isort ltb l).
Proof.
  intros Hl. unfold isort. apply fold_insert_sorted.
  - constructor.
  - exact Hl.
  - intros y x [].
Qed.

End SortingFacts.

(** ** Grouping: keys and sums *)

Section GroupByFacts.
Context {K : Type} `{KeyOrder K}.

Lemma unique_In (l : list K) (x : K) : In x (unique l) <-> In x l.
Proof.
  induction l as [|k l IH]; simpl; [reflexivity|].
  rewrite filter_In, IH, negb_true_iff, key_eqb_neq.
  split.
  - intros [E | [Hx _]]; auto.
  - intros [E | Hx]; [left; exact E|].
    destruct (key_eqb x k) eqn:E.
    + left. symmetry. apply key_eqb_eq. exact E.
    + right. split; [exact Hx | apply key_eqb_neq; exact E].
Qed.

Lemma unique_NoDup (l : list K) : NoDup (unique l).
Proof.
  induction l as [|k l IH]; simpl; constructor.
  - rewrite filter_In, negb_true_iff, key_eqb_neq. intros [_ Hk]. congruence.
  - apply NoDup_filter. exact IH.
Qed.

Lemma group_keys_perm (key : Row -> K) (fr : Frame) :
  Permutation (group_keys key fr) (unique (map key fr)).
Proof. apply isort_perm. Qed.

Lemma group_keys_In (key : Row -> K) (fr : Frame) (k : K) :
  In k (group_keys key fr) <-> exists r, In r fr /\ key r = k.
Proof.
  split.
  - intros Hk. apply (Permutation_in _ (group_keys_perm key fr)) in Hk.
    apply unique_In, in_map_iff in Hk. destruct Hk as [r [E Hr]].
    exists r. split; assumption.
  - intros [r [Hr E]].
    apply (Permutation_in _ (Permutation_sym (group_keys_perm key fr))).
    apply unique_In, in_map_iff. exists r. split; assumption.
Qed.

Lemma group_keys_NoDup (key : Row -> K) (fr : Frame) :
  NoDup (group_keys key fr).
Proof.
  apply (Permutation_NoDup (Permutation_sym (group_keys_perm key fr))).
  apply unique_NoDup.
Qed.

Lemma group_keys_sorted (key : Row -> K) (fr : Frame) :
  StronglySorted key_lt (group_keys key fr).
Proof.
  unfold group_keys.
  apply (StronglySorted_weaken (stable_order key_ltb (fun a b => a <> b))).
  - intros a b _ _ [Hlt | [Hge Hne]]; [exact Hlt|].
    unfold key_lt. destruct (key_ltb a b) eqn:E; [reflexivity|].
    elim Hne. apply key_ltb_total; assumption.
  - apply isort_stable.
    + apply key_ltb_asym.
    + apply key_ltb_le_trans.
    + apply NoDup_StronglySorted, unique_NoDup.
Qed.

Lemma groupby_sum_keys (key : Row -> K) (fr : Frame) :
  keys (groupby_sum key fr) = group_keys key fr.
Proof.
  unfold keys, groupby_sum. rewrite map_map. simpl. apply map_id.
Qed.

Lemma groupby_sum_totals (key : Row -> K) (fr : Frame) :
  totals (groupby_sum key fr) =
  map (fun k => Int64.sum (map visits (group key fr k))) (group_keys key fr).
Proof. unfold totals, groupby_sum. rewrite map_map. reflexivity. Qed.

Lemma groupby_sum_In (key : Row -> K) (fr : Frame) (k : K) (t : Z) :
  In (k, t) (groupby_sum key fr) <->
  (exists r, In r fr /\ key r = k) /\ t = Int64.sum (map visits (group key fr k)).
Proof.
  unfold groupby_sum. rewrite in_map_iff, <- group_keys_In. split.
  - intros [k' [E Hk']]. inversion E; subst. split; [exact Hk' | reflexivity].
  - intros [Hk ->]. exists k. split; [reflexivity | exact Hk].
Qed.

Lemma Zsum_no_key (f : K -> Z) (v : Z) (k0 : K) (ks : list K) :
  ~ In k0 ks ->
  Zsum (map (fun k => (if key_eqb k0 k then v else 0) + f k) ks) =
  Zsum (map f ks).
Proof.
  induction ks as [|k ks IH]; simpl; intros Hout; [reflexivity|].
  rewrite IH by tauto.
  destruct (key_eqb k0 k) eqn:E; [|lia].
  apply key_eqb_eq in E. subst. tauto.
Qed.

(** One row adds its visits to exactly one of the groups. *)
Lemma Zsum_one_key (f : K -> Z) (v : Z) (k0 : K) (ks : list K) :
  NoDup ks -> In k0 ks ->
  Zsum (map (fun k => (if key_eqb k0 k then v else 0) + f k) ks) =
  v + Zsum (map f ks).
Proof.
  induction 1 as [|k ks Hk Hks IH]; simpl; intros Hin; [contradiction|].
  destruct Hin as [-> | Hin].
  - rewrite key_eqb_refl, Zsum_no_key by exact Hk. lia.
  - rewrite IH by exact Hin.
    destruct (key_eqb k0 k) eqn:E; [|lia].
    apply key_eqb_eq in E. subst. contradiction.
Qed.

Lemma group_cons (key : Row -> K) (r : Row) (fr : Frame) (k : K) :
  Zsum (map visits (group key (r :: fr) k)) =
  (if key_eqb (key r) k then visits r else 0) + Zsum (map visits (group key fr k)).
Proof. unfold group. simpl. destruct (key_eqb (key r) k); simpl; lia. Qed.

Lemma group_partition (key : Row -> K) (fr : Frame) (ks : list K) :
  NoDup ks ->
  (forall r, In r fr -> In (key r) ks) ->
  Zsum (map (fun k => Zsum (map visits (group key fr k))) ks) = Zsum (map visits fr).
Proof.
  intros Hks. induction fr as [|r fr IH]; intros Hin.
  - clear Hin Hks. induction ks as [|k ks IHks]; simpl in *; lia.
  - rewrite (map_ext _ _ (group_cons key r fr)).
    rewrite (Zsum_one_key _ (visits r) (key r) ks Hks)
      by (apply Hin; left; reflexivity).
    simpl. rewrite IH; [reflexivity|].
    intros r' Hr'. apply Hin. right. exact Hr'.
Qed.

Lemma Zsum_group_bounds (key : Row -> K) (fr : Frame) (k : K) :
  Forall (fun r => 0 <= visits r) fr ->
  0 <= Zsum (map visits (group key fr k)) <= Zsum (map visits fr).
Proof.
  induction 1 as [|r fr Hr Hfr IH]; [simpl; lia|].
  rewrite group_cons. simpl. destruct (key_eqb (key r) k); lia.
Qed.

(** Grouped totals add up to the column sum: always as 64-bit values ... *)
Lemma groupby_sum_conserves_wrapped (key : Row -> K) (fr : Frame) :
  Int64.sum (totals (groupby_sum key fr)) = Int64.sum (map visits fr).
Proof.
  rewrite !sum_wrap, groupby_sum_totals.
  rewrite (map_ext _ (fun k => Int64.wrap (Zsum (map visits (group key fr k)))))
    by (intros k; apply sum_wrap).
  rewrite <- (map_map (fun k => Zsum (map visits (group key fr k))) Int64.wrap).
  rewrite wrap_Zsum_wrap. f_equal.
  apply group_partition; [apply group_keys_NoDup|].
  intros r Hr. apply group_keys_In. exists r. split; [exact Hr | reflexivity].
Qed.

(** ... and exactly when no group can leave the 64-bit range. *)
Lemma groupby_sum_conserves (key : Row -> K) (fr : Frame) :
  Forall (fun r => 0 <= visits r) fr ->
  Zsum (map visits fr) <= Int64.max_int ->
  Zsum (totals (groupby_sum key fr)) = Zsum (map visits fr).
Proof.
  intros Hpos Hmax. rewrite groupby_sum_totals.
  rewrite (map_ext_in _ (fun k => Zsum (map visits (group key fr k)))).
  - apply group_partition; [apply group_keys_NoDup|].
    intros r Hr. apply group_keys_In. exists r. split; [exact Hr | reflexivity].
  - intros k _. rewrite sum_wrap. apply wrap_in_range.
    pose proof (Zsum_group_bounds key fr k Hpos) as Hb.
    unfold Int64.in_range, Int64.min_int, Int64.max_int in *. lia.
Qed.

End GroupByFacts.

Lemma sort_values_desc_perm {K : Type} (t : list (K * Z)) :
  Permutation (sort_values_desc t) t.
Proof.
  unfold sort_values_desc.
  rewrite <- Permutation_rev, isort_perm, <- Permutation_rev. reflexivity.
Qed.

(** ** Selection *)

Lemma filter_filter {A : Type} (f g : A -> bool) (l : list A) :
  filter g (filter f l) = filter (fun x => f x && g x) l.
Proof.
  induction l as [|x l IH]; simpl; [reflexivity|].
  destruct (f x); simpl; [destruct (g x)|]; rewrite IH; reflexivity.
Qed.

Lemma filter_true {A : Type} (l : list A) : filter (fun _ => true) l = l.
Proof. induction l as [|x l IH]; simpl; congruence. Qed.

Lemma isin_In (values : list string) (x : string) :
  isin values x = true <-> In x values.
Proof.
  unfold isin. rewrite existsb_exists. split.
  - intros [y [Hy E]]. apply String.eqb_eq in E. subst. exact Hy.
  - intros Hx. exists x. split; [exact Hx | apply String.eqb_refl].
Qed.

(** The two narrowing steps keep exactly the rows that pass [keeps], in
    the order of the base frame. *)
Lemma select_keeps (df : Frame) (sd sl : Selection) :
  select df sd sl = filter (keeps sd sl) df.
Proof.
  unfold select, keeps.
  destruct (truthy sd), (truthy sl); simpl.
  - apply filter_filter.
  - apply filter_ext. intros r. rewrite andb_true_r. reflexivity.
  - reflexivity.
  - symmetry. apply filter_true.
Qed.

Lemma select_In (df : Frame) (sd sl : Selection) (r : Row) :
  In r (select df sd sl) <-> In r df /\ keeps sd sl r = true.
Proof. rewrite select_keeps. apply filter_In. Qed.

Lemma aggregate_nil : aggregate [] = empty_tables.
Proof. reflexivity. Qed.

(** ** The heap model agrees with the pure callback *)

Lemma nth_fresh (h : Heap) (fr : Frame) : nth (List.length h) (h ++ [fr]) [] = fr.
Proof. apply nth_middle. Qed.

Lemma update_dashboard_m_spec (df : ref) (sd sl : Selection) (h : Heap) :
  exists ext,
    update_dashboard_m df sd sl h =
    (update_dashboard (nth df h []) sd sl, h ++ ext).
Proof.
  unfold update_dashboard_m, update_dashboard, select, bind, copy, getitem,
    load, alloc, ret, bind.
  destruct (truthy sd), (truthy sl); rewrite ?nth_fresh.
  - eexists. rewrite <- !app_assoc. reflexivity.
  - eexists. rewrite <- !app_assoc. reflexivity.
  - eexists. rewrite <- !app_assoc. reflexivity.
  - eexists. reflexivity.
Qed.

Lemma run_calls_spec (df : ref) (calls : list (Selection * Selection)) (h : Heap) :
  (df < List.length h)%nat ->
  exists ext,
    run_calls df calls h =
    (map (fun c => update_dashboard (nth df h []) (fst c) (snd c)) calls, h ++ ext).
Proof.
  revert h. induction calls as [|[sd sl] calls IH]; intros h Hlt.
  - exists []. simpl. unfold ret. rewrite app_nil_r. reflexivity.
  - destruct (update_dashboard_m_spec df sd sl h) as [ext1 E1].
    destruct (IH (h ++ ext1)) as [ext2 E2]; [rewrite length_app; lia|].
    exists (ext1 ++ ext2). simpl. unfold bind at 1. rewrite E1.
    unfold bind at 1. rewrite E2. unfold ret. simpl.
    rewrite app_nth1 by exact Hlt. rewrite app_assoc. reflexivity.
Qed.

(** * Properties of the callback *)

(** C1 (as amended). Conservation of counts: when the visits of the
    surviving rows are non-negative and add up to at most 2^63 - 1, the
    totals of the trend table, of the top-pages table and of the device
    table each add up to the sum of [visits] over the surviving rows. *)
Theorem conservation_of_counts (df : Frame) (sd sl : Selection) :
  Forall (fun r => 0 <= visits r) (select df sd sl) ->
  Zsum (map visits (select df sd sl)) <= Int64.max_int ->
  counts_conserved df sd sl.
Proof.
  intros Hpos Hmax. unfold counts_conserved, update_dashboard, aggregate. simpl.
  set (sel := select df sd sl) in *.
  assert (Ht : Zsum (totals (sort_values_desc (groupby_sum page sel))) =
               Zsum (map visits sel)).
  { unfold totals. rewrite (Zsum_perm _ _ (Permutation_map snd (sort_values_desc_perm _))).
    apply (groupby_sum_conserves page sel Hpos Hmax). }
  rewrite Ht, (groupby_sum_conserves date sel Hpos Hmax),
    (groupby_sum_conserves device sel Hpos Hmax).
  repeat split.
Qed.

Lemma conservation_of_counts_witness : counts_conserved example_df None None.
Proof.
  apply (conservation_of_counts example_df None None).
  - repeat constructor; simpl; lia.
  - vm_compute. discriminate.
Defined.

(** C1, as stated, fails once a group leaves the 64-bit range: the two
    rows of [overflow_df] share a date, so the trend total wraps around,
    while the two page totals are exact. *)
Lemma conservation_fails_on_overflow : ~ counts_conserved overflow_df None None.
Proof.
  unfold counts_conserved. vm_compute. intros [E _]. discriminate E.
Qed.

(** Whatever the visits are, the three tables conserve the counts as
    64-bit values, that is, when their totals are summed the way the
    frame sums a column. *)
Lemma conservation_of_counts_int64 (df : Frame) (sd sl : Selection) :
  let sel := select df sd sl in
  let out := update_dashboard df sd sl in
  Int64.sum (totals (traffic_by_date out)) = Int64.sum (map visits sel) /\
  Int64.sum (totals (top_pages out)) = Int64.sum (map visits sel) /\
  Int64.sum (totals (device_data out)) = Int64.sum (map visits sel).
Proof.
  simpl. repeat split; try apply groupby_sum_conserves_wrapped.
  rewrite <- (groupby_sum_conserves_wrapped page), !sum_wrap. f_equal.
  apply Zsum_perm, Permutation_map, sort_values_desc_perm.
Qed.

Lemma StronglySorted_map {A B : Type} (R : B -> B -> Prop) (f : A -> B) (l : list A) :
  StronglySorted R (map f l) <-> StronglySorted (fun a b => R (f a) (f b)) l.
Proof.
  induction l as [|x l IH]; simpl.
  - split; constructor.
  - split; intros Hs; inversion Hs; subst; constructor;
      try (apply IH; assumption); rewrite Forall_forall in *.
    + intros y Hy. apply H2, in_map, Hy.
    + intros y Hy. apply in_map_iff in Hy. destruct Hy as [z [<- Hz]]. auto.
Qed.

Lemma groupby_sum_sorted {K : Type} `{KeyOrder K} (key : Row -> K) (fr : Frame) :
  StronglySorted (fun a b => key_lt (fst a) (fst b)) (groupby_sum key fr).
Proof.
  apply (StronglySorted_map key_lt fst).
  fold (keys (groupby_sum key fr)). rewrite groupby_sum_keys.
  apply group_keys_sorted.
Qed.

Lemma StronglySorted_any {A : Type} (l : list A) :
  StronglySorted (fun _ _ => True) l.
Proof.
  induction l as [|x l IH]; constructor; [exact IH|].
  rewrite Forall_forall. intros y _. exact I.
Qed.

Lemma sort_values_desc_sorted {K : Type} (t : list (K * Z)) :
  StronglySorted (fun a b => snd b <= snd a) (sort_values_desc t).
Proof.
  unfold sort_values_desc.
  apply (StronglySorted_weaken
           (fun a b => stable_order (fun a b : K * Z => snd a <? snd b)
                         (fun _ _ => True) b a)).
  - intros a b _ _ [Hlt | [Hge _]].
    + apply Z.ltb_lt in Hlt. lia.
    + apply Z.ltb_ge in Hge. lia.
  - apply StronglySorted_rev. apply isort_stable.
    + intros x y Hxy. apply Z.ltb_lt in Hxy. apply Z.ltb_ge. lia.
    + intros x y z Hxy Hzy. apply Z.ltb_lt in Hxy. apply Z.ltb_ge in Hzy.
      apply Z.ltb_lt. lia.
    + apply StronglySorted_any.
Qed.

(** C2 (as amended). The top-pages table is sorted by total visits in
    descending order.  Nothing is said of pages with equal totals: their
    order is left to the sort and is not the encounter order. *)
Theorem top_pages_descending (df : Frame) (sd sl : Selection) :
  StronglySorted (fun a b => snd b <= snd a)
    (top_pages (update_dashboard df sd sl)).
Proof.
  unfold update_dashboard, aggregate. simpl top_pages.
  apply sort_values_desc_sorted.
Qed.

(** C2, as stated, fails: in [tie_df] the page "Products" is met first,
    yet with equal totals "Home" comes first in the table. *)
Lemma top_pages_ties_not_in_encounter_order :
  ~ StronglySorted (desc_then_encounter tie_df)
      (top_pages (update_dashboard tie_df None None)).
Proof.
  assert (E : top_pages (update_dashboard tie_df None None) =
              [("Home"%string, 10); ("Products"%string, 10)])
    by (vm_compute; reflexivity).
  rewrite E. intros Hs.
  inversion Hs as [|? ? _ Hf]; subst.
  inversion Hf as [|? ? [_ Hx] _]; subst.
  specialize (Hx eq_refl). vm_compute in Hx. lia.
Qed.

(** The failure does not hinge on how the sort treats ties.  [tie_df] and
    its reversal have the same grouped table, so whatever rearrangement
    [sort] picks for it, one of the two frames sees its pages out of
    encounter order. *)
Lemma encounter_order_is_lost_by_grouping
  (sort : list (string * Z) -> list (string * Z)) :
  (forall t, Permutation (sort t) t) ->
  ~ (StronglySorted (desc_then_encounter tie_df)
       (sort (groupby_sum page tie_df)) /\
     StronglySorted (desc_then_encounter (rev tie_df))
       (sort (groupby_sum page (rev tie_df)))).
Proof.
  intros Hperm.
  change (groupby_sum page (rev tie_df))
    with [("Home"%string, 10); ("Products"%string, 10)].
  change (groupby_sum page tie_df)
    with [("Home"%string, 10); ("Products"%string, 10)].
  destruct (Permutation_length_2_inv
              (Permutation_sym (Hperm [("Home"%string, 10); ("Products"%string, 10)])))
    as [-> | ->]; intros [H1 H2].
  - inversion H1 as [|? ? _ Hf]; subst.
    inversion Hf as [|? ? [_ Hx] _]; subst.
    specialize (Hx eq_refl). vm_compute in Hx. lia.
  - inversion H2 as [|? ? _ Hf]; subst.
    inversion Hf as [|? ? [_ Hx] _]; subst.
    specialize (Hx eq_refl). vm_compute in Hx. lia.
Qed.

(** C3. The trend table is sorted by date in strictly ascending order and
    has exactly one entry per distinct date of the surviving rows: no date
    occurs twice, and [(d, t)] is an entry precisely when some surviving
    row has date [d] and [t] is the 64-bit sum of the visits on [d]. *)
Theorem trend_sorted_one_per_date (df : Frame) (sd sl : Selection) :
  let sel := select df sd sl in
  let trend := traffic_by_date (update_dashboard df sd sl) in
  StronglySorted Z.lt (keys trend) /\
  NoDup (keys trend) /\
  forall d t,
    In (d, t) trend <->
    In d (map date sel) /\ t = Int64.sum (map visits (group date sel d)).
Proof.
  simpl. rewrite groupby_sum_keys. split; [|split].
  - apply (StronglySorted_weaken key_lt); [|apply group_keys_sorted].
    intros a b _ _ Hab. apply Z.ltb_lt. exact Hab.
  - apply group_keys_NoDup.
  - intros d t. rewrite groupby_sum_In, in_map_iff.
    split; intros [[r [H1 H2]] Ht]; (split; [exists r; split; assumption | exact Ht]).
Qed.

(** C4. With no restriction on either dimension, whether the selection is
    absent or empty, every row survives and the three tables are those of
    the entire base frame. *)
Theorem empty_filter_is_whole_dataset (df : Frame) (sd sl : Selection) :
  unrestricted sd -> unrestricted sl ->
  select df sd sl = df /\ update_dashboard df sd sl = aggregate df.
Proof.
  intros [-> | ->] [-> | ->]; split; reflexivity.
Qed.

Lemma empty_filter_is_whole_dataset_witness :
  select example_df (Some []) None = example_df /\
  update_dashboard example_df (Some []) None = aggregate example_df.
Proof.
  apply (empty_filter_is_whole_dataset example_df (Some []) None).
  - right. reflexivity.
  - left. reflexivity.
Defined.

(** C5. When no row of the base frame passes the selection, the callback
    returns three empty tables; it is a total function and has no failing
    outcome. *)
Theorem no_match_gives_empty_tables (df : Frame) (sd sl : Selection) :
  (forall r, In r df -> keeps sd sl r = false) ->
  update_dashboard df sd sl = empty_tables.
Proof.
  intros Hnone. unfold update_dashboard.
  replace (select df sd sl) with (@nil Row); [apply aggregate_nil|].
  rewrite select_keeps. symmetry.
  induction df as [|r df IH]; simpl; [reflexivity|].
  rewrite (Hnone r) by (left; reflexivity).
  apply IH. intros r' Hr'. apply Hnone. right. exact Hr'.
Qed.

Lemma no_match_gives_empty_tables_witness :
  update_dashboard example_df (Some ["Watch"%string]) None = empty_tables.
Proof.
  apply (no_match_gives_empty_tables example_df (Some ["Watch"%string]) None).
  intros r [<- | [<- | [<- | []]]]; reflexivity.
Defined.

(** The instance named by the specification: a device that no row has. *)
Lemma absent_device_gives_empty_tables (df : Frame) (d : string) (sl : Selection) :
  ~ In d (map device df) ->
  update_dashboard df (Some [d]) sl = empty_tables.
Proof.
  intros Hd. unfold update_dashboard.
  replace (select df (Some [d]) sl) with (@nil Row); [apply aggregate_nil|].
  rewrite select_keeps. symmetry.
  induction df as [|r df IH]; simpl; [reflexivity|].
  simpl in Hd. unfold keeps at 1. simpl. rewrite orb_false_r.
  destruct (String.eqb (device r) d) eqn:E.
  - apply String.eqb_eq in E. tauto.
  - simpl. apply IH. tauto.
Qed.

(** C6. The worked example: three rows, filtered to the device
    "Desktop". *)
Theorem worked_example :
  update_dashboard example_df (Some ["Desktop"%string]) None =
  {| traffic_by_date := [(mk_date 2025 7 1, 10); (mk_date 2025 7 2, 20)];
     top_pages := [("Home"%string, 30)];
     device_data := [("Desktop"%string, 30)] |}.
Proof. vm_compute. reflexivity. Qed.

Example mk_date_epoch : mk_date 1970 1 1 = 0.
Proof. reflexivity. Qed.

Lemma length_zip_rows (ds : list Timestamp) (ps : list string) (vs : list Z)
  (dv lc : list string) (n : nat) :
  List.length ds = n -> List.length ps = n -> List.length vs = n ->
  List.length dv = n -> List.length lc = n ->
  List.length (zip_rows ds ps vs dv lc) = n.
Proof.
  revert ds ps vs dv lc.
  induction n as [|n IH]; intros [|d ds] [|p ps] [|v vs] [|e dv] [|l lc];
    simpl; try discriminate; try reflexivity.
  intros H1 H2 H3 H4 H5. f_equal. apply IH; congruence.
Qed.

Lemma zip_rows_to_columns (fr : Frame) :
  zip_rows (map date fr) (map page fr) (map visits fr) (map device fr)
    (map location fr) = fr.
Proof.
  induction fr as [|[d p v e l] fr IH]; simpl; [reflexivity|].
  rewrite IH. reflexivity.
Qed.

(** C7 (as amended). Constructing the base frame from a sequence of rows
    succeeds for every sequence, the empty one included, and yields
    exactly these rows. *)
Theorem DataFrame_accepts_every_sequence (fr : Frame) :
  DataFrame (to_columns fr) = Ok fr.
Proof.
  unfold DataFrame, same_length, to_columns. simpl.
  rewrite !length_map, Nat.eqb_refl. simpl.
  rewrite zip_rows_to_columns. reflexivity.
Qed.

(** C7, as stated, fails: the empty sequence of rows is accepted. *)
Lemma empty_dataset_is_accepted :
  DataFrame (to_columns []) = Ok [] /\ DataFrame (to_columns []) <> ValueError.
Proof. split; [reflexivity | discriminate]. Qed.

(** The constructor's one failure is a mismatch of column lengths. *)
Lemma DataFrame_fails_iff (c : Columns) :
  DataFrame c = ValueError <-> same_length c = false.
Proof.
  unfold DataFrame. destruct (same_length c); split; congruence.
Qed.

(** C8. The callback leaves the base frame as it is: after any number of
    calls, with any selections in any order, the object bound to [df]
    holds the same rows, every object that existed before is untouched,
    and each call returns what the pure callback returns on those rows. *)
Theorem base_frame_unchanged (h : Heap) (df : ref) (fr : Frame)
  (calls : list (Selection * Selection)) :
  nth_error h df = Some fr ->
  nth_error (snd (run_calls df calls h)) df = Some fr /\
  (exists ext, snd (run_calls df calls h) = h ++ ext) /\
  fst (run_calls df calls h) =
    map (fun c => update_dashboard fr (fst c) (snd c)) calls.
Proof.
  intros Hdf.
  assert (Hlt : (df < List.length h)%nat)
    by (apply nth_error_Some; congruence).
  destruct (run_calls_spec df calls h Hlt) as [ext E]. rewrite E. simpl.
  repeat split.
  - rewrite nth_error_app1 by exact Hlt. exact Hdf.
  - exists ext. reflexivity.
  - rewrite (nth_error_nth h df [] Hdf). reflexivity.
Qed.

Lemma base_frame_unchanged_witness :
  nth_error
    (snd (run_calls 0%nat [(Some ["Desktop"%string], None); (None, Some [])]
            [example_df])) 0%nat = Some example_df.
Proof.
  apply (base_frame_unchanged [example_df] 0%nat example_df
           [(Some ["Desktop"%string], None); (None, Some [])]).
  reflexivity.
Defined.

(** C9. No key occurs twice in any of the three tables. *)
Theorem output_keys_distinct (df : Frame) (sd sl : Selection) :
  let out := update_dashboard df sd sl in
  NoDup (keys (traffic_by_date out)) /\
  NoDup (keys (top_pages out)) /\
  NoDup (keys (device_data out)).
Proof.
  simpl. repeat split.
  - rewrite groupby_sum_keys. apply group_keys_NoDup.
  - apply (Permutation_NoDup
             (Permutation_sym (Permutation_map fst (sort_values_desc_perm _)))).
    fold (keys (groupby_sum page (select df sd sl))).
    rewrite groupby_sum_keys. apply group_keys_NoDup.
  - rewrite groupby_sum_keys. apply group_keys_NoDup.
Qed.

(** C10. With a non-empty list [D] of allowed devices every key of the
    device table is in [D]; with a non-empty list [L] of allowed locations
    every surviving row has its location in [L]. *)
Theorem allowed_sets_respected (df : Frame) (D L : list string) :
  D <> [] -> L <> [] ->
  (forall sl k,
     In k (keys (device_data (update_dashboard df (Some D) sl))) -> In k D) /\
  (forall sd r, In r (select df sd (Some L)) -> In (location r) L).
Proof.
  intros HD HL. split.
  - intros sl k Hk. simpl in Hk. rewrite groupby_sum_keys in Hk.
    apply group_keys_In in Hk. destruct Hk as [r [Hr <-]].
    apply select_In in Hr. destruct Hr as [_ Hr]. unfold keeps in Hr.
    apply andb_true_iff in Hr. destruct Hr as [Hr _].
    destruct D as [|d D]; [contradiction|]. simpl in Hr.
    apply (isin_In (d :: D)). exact Hr.
  - intros sd r Hr. apply select_In in Hr. destruct Hr as [_ Hr].
    unfold keeps in Hr. apply andb_true_iff in Hr. destruct Hr as [_ Hr].
    destruct L as [|l L]; [contradiction|]. simpl in Hr.
    apply (isin_In (l :: L)). exact Hr.
Qed.

Lemma allowed_sets_respected_witness :
  (forall sl k,
     In k (keys (device_data
                   (update_dashboard example_df (Some ["Desktop"%string]) sl))) ->
     In k ["Desktop"%string]) /\
  (forall sd r,
     In r (select example_df sd (Some ["UK"%string])) ->
     In (location r) ["UK"%string]).
Proof.
  apply (allowed_sets_respected example_df ["Desktop"%string] ["UK"%string]);
    discriminate.
Defined.

(** * Further properties of the program *)

(** ** Building the frame *)

Lemma to_columns_zip_rows (ds : list Timestamp) (ps : list string) (vs : list Z)
  (dv lc : list string) :
  List.length ps = List.length ds -> List.length vs = List.length ds ->
  List.length dv = List.length ds -> List.length lc = List.length ds ->
  to_columns (zip_rows ds ps vs dv lc) = mkColumns ds ps vs dv lc.
Proof.
  revert ps vs dv lc.
  induction ds as [|d ds IH]; intros [|p ps] [|v vs] [|e dv] [|l lc];
    simpl; try discriminate; try reflexivity.
  intros H1 H2 H3 H4.
  specialize (IH ps vs dv lc ltac:(congruence) ltac:(congruence)
                 ltac:(congruence) ltac:(congruence)).
  unfold to_columns in *. simpl. congruence.
Qed.

Lemma same_length_true (c : Columns) :
  same_length c = true <->
  List.length (col_page c) = List.length (col_date c) /\
  List.length (col_visits c) = List.length (col_date c) /\
  List.length (col_device c) = List.length (col_date c) /\
  List.length (col_location c) = List.length (col_date c).
Proof.
  unfold same_length. rewrite !andb_true_iff, !Nat.eqb_eq. tauto.
Qed.

(** X1. A frame that [pd.DataFrame] builds holds the given columns
    unchanged, and has as many rows as each column has entries. *)
Theorem DataFrame_keeps_columns (c : Columns) (fr : Frame) :
  DataFrame c = Ok fr ->
  to_columns fr = c /\ List.length fr = List.length (col_date c).
Proof.
  unfold DataFrame. destruct (same_length c) eqn:E; [|discriminate].
  intros Hfr. inversion Hfr; subst. clear Hfr.
  apply same_length_true in E. destruct E as [H1 [H2 [H3 H4]]].
  split.
  - rewrite to_columns_zip_rows by assumption. destruct c. reflexivity.
  - apply length_zip_rows; congruence.
Qed.

Lemma DataFrame_keeps_columns_witness :
  to_columns example_df = to_columns example_df /\
  List.length example_df = List.length (col_date (to_columns example_df)).
Proof.
  apply (DataFrame_keeps_columns (to_columns example_df) example_df).
  reflexivity.
Defined.

(** ** The dropdown options *)

(** X4. The options of a dropdown list every value of its column once:
    labels and values coincide, no value is offered twice, and a value is
    offered exactly when some row of the frame carries it. *)
Theorem dropdown_options_distinct_and_complete (column : Row -> string) (df : Frame) :
  Forall (fun o => label o = value o) (dropdown_options column df) /\
  NoDup (map value (dropdown_options column df)) /\
  forall v, In v (map value (dropdown_options column df)) <-> In v (map column df).
Proof.
  unfold dropdown_options. rewrite map_map. simpl. rewrite map_id.
  split; [|split].
  - rewrite Forall_forall. intros o Ho. apply in_map_iff in Ho.
    destruct Ho as [v [<- _]]. reflexivity.
  - apply unique_NoDup.
  - intros v. apply unique_In.
Qed.

Lemma filter_all {A : Type} (f : A -> bool) (l : list A) :
  (forall x, In x l -> f x = true) -> filter f l = l.
Proof.
  induction l as [|x l IH]; simpl; intros Hf; [reflexivity|].
  rewrite (Hf x) by (left; reflexivity). f_equal.
  apply IH. intros y Hy. apply Hf. right. exact Hy.
Qed.

Lemma unique_constant {K : Type} `{KeyOrder K} (k : K) (l : list K) :
  l <> [] -> (forall x, In x l -> x = k) -> unique l = [k].
Proof.
  induction l as [|x l IH]; intros Hne Hall; [contradiction|].
  simpl. rewrite (Hall x) by (left; reflexivity). f_equal.
  destruct l as [|y l]; [reflexivity|].
  rewrite IH; [|discriminate | intros z Hz; apply Hall; right; exact Hz].
  simpl. rewrite key_eqb_refl. reflexivity.
Qed.

Lemma isin_singleton (d x : string) : isin [d] x = String.eqb x d.
Proof. unfold isin. simpl. apply orb_false_r. Qed.

Lemma select_single_device (df : Frame) (d : string) (sl : Selection) :
  unrestricted sl -> select df (Some [d]) sl = group device df d.
Proof.
  intros [-> | ->]; unfold select, group; simpl;
    apply filter_ext; intros r; apply isin_singleton.
Qed.

(** X5. With no location selected (absent or empty), choosing one device
    that the frame has gives a device table of exactly one row, for that
    device, with the 64-bit sum of its visits. *)
Theorem offered_device_gives_one_row (df : Frame) (d : string) (sl : Selection) :
  In d (map device df) -> unrestricted sl ->
  device_data (update_dashboard df (Some [d]) sl) =
  [(d, Int64.sum (map visits (group device df d)))].
Proof.
  intros Hd Hsl. unfold update_dashboard, aggregate. simpl device_data.
  rewrite (select_single_device df d sl Hsl). unfold groupby_sum, group_keys.
  assert (Hne : map device (group device df d) <> []).
  { apply in_map_iff in Hd. destruct Hd as [r [E Hr]].
    assert (Hin : In r (group device df d)).
    { apply filter_In. split; [exact Hr|]. simpl. apply String.eqb_eq. exact E. }
    intros Hnil. apply (in_map device) in Hin. rewrite Hnil in Hin. exact Hin. }
  rewrite (unique_constant d); [|exact Hne|].
  - simpl. unfold group. rewrite filter_filter.
    rewrite (filter_ext _ (fun r => key_eqb (device r) d))
      by (intros r; apply andb_diag).
    reflexivity.
  - intros x Hx. apply in_map_iff in Hx. destruct Hx as [r [<- Hr]].
    apply filter_In in Hr. destruct Hr as [_ Hr]. apply String.eqb_eq. exact Hr.
Qed.

Lemma offered_device_gives_one_row_witness :
  device_data (update_dashboard example_df (Some ["Mobile"%string]) (Some [])) =
  [("Mobile"%string,
    Int64.sum (map visits (group device example_df "Mobile"%string)))].
Proof.
  apply (offered_device_gives_one_row example_df "Mobile"%string (Some [])).
  - right. left. reflexivity.
  - right. reflexivity.
Defined.

(** X6. Choosing every device the dropdown offers is the same as choosing
    none: with all the offered values selected the callback returns the
    tables of the unfiltered device dimension. *)
Theorem all_options_is_no_filter (df : Frame) (sl : Selection) :
  update_dashboard df (Some (map value (dropdown_options device df))) sl =
  update_dashboard df None sl.
Proof.
  unfold update_dashboard. f_equal. rewrite !select_keeps.
  apply filter_ext_in. intros r Hr. unfold keeps. f_equal.
  assert (Hin : In (device r) (map value (dropdown_options device df))).
  { unfold dropdown_options. rewrite map_map. simpl. rewrite map_id.
    apply unique_In, in_map. exact Hr. }
  simpl (truthy None). simpl (negb (negb _)).
  apply (proj2 (isin_In _ _)) in Hin. unfold allowed at 1. rewrite Hin.
  apply orb_true_r.
Qed.

(** ** The selection step *)

(** X7. Narrowing is idempotent: applying the same two selections to the
    surviving rows keeps all of them. *)
Theorem select_idempotent (df : Frame) (sd sl : Selection) :
  select (select df sd sl) sd sl = select df sd sl.
Proof.
  rewrite (select_keeps (select df sd sl)). apply filter_all.
  intros r Hr. apply select_In in Hr. tauto.
Qed.

(** X8. Only the set of selected values matters: two selections with the
    same values, in any order and with any repetitions, keep the same
    rows. *)
Theorem select_depends_on_value_set (df : Frame) (D D' L L' : list string) :
  (forall x, In x D <-> In x D') -> (forall x, In x L <-> In x L') ->
  select df (Some D) (Some L) = select df (Some D') (Some L').
Proof.
  assert (Hi : forall (V V' : list string) (x : string),
             (forall y, In y V <-> In y V') -> isin V x = isin V' x).
  { intros V V' x HV.
    destruct (isin V x) eqn:E, (isin V' x) eqn:E'; try reflexivity.
    - apply isin_In, HV, isin_In in E. congruence.
    - apply isin_In, HV, isin_In in E'. congruence. }
  assert (Hk : forall (V V' : list string) (x : string),
             (forall y, In y V <-> In y V') ->
             negb (truthy (Some V)) || isin V x =
             negb (truthy (Some V')) || isin V' x).
  { intros V V' x HV. rewrite (Hi V V' x HV).
    destruct V as [|v V], V' as [|v' V']; try reflexivity.
    - exfalso. apply (HV v'). left. reflexivity.
    - exfalso. apply (HV v). left. reflexivity. }
  intros HD HL. rewrite !select_keeps. apply filter_ext. intros r.
  unfold keeps. simpl allowed. rewrite (Hk D D' _ HD), (Hk L L' _ HL). reflexivity.
Qed.

Lemma select_depends_on_value_set_witness :
  select example_df (Some ["Desktop"; "Mobile"; "Desktop"]%string) (Some ["USA"]%string) =
  select example_df (Some ["Mobile"; "Desktop"]%string) (Some ["USA"; "USA"]%string).
Proof.
  apply (select_depends_on_value_set example_df).
  - intros x. simpl. tauto.
  - intros x. simpl. tauto.
Defined.

(** X9. Between non-empty selections narrowing is monotone: a larger list
    of allowed devices keeps every row a smaller one keeps.  (The empty
    list is the exception, it keeps every row.) *)
Theorem select_monotone (df : Frame) (D D' : list string) (sl : Selection) :
  D <> [] -> incl D D' ->
  incl (select df (Some D) sl) (select df (Some D') sl).
Proof.
  intros HD Hincl r Hr. apply select_In in Hr. destruct Hr as [Hin Hr].
  apply select_In. split; [exact Hin|].
  unfold keeps in *. apply andb_true_iff in Hr. destruct Hr as [Hdev Hloc].
  rewrite Hloc, andb_true_r.
  destruct D as [|d D]; [contradiction|]. simpl in Hdev.
  apply (isin_In (d :: D)) in Hdev. apply Hincl in Hdev.
  destruct D' as [|d' D']; [contradiction|]. simpl.
  apply (isin_In (d' :: D')). exact Hdev.
Qed.

Lemma select_monotone_witness :
  incl (select example_df (Some ["Mobile"%string]) None)
       (select example_df (Some ["Desktop"; "Mobile"]%string) None).
Proof.
  apply (select_monotone example_df ["Mobile"%string] ["Desktop"; "Mobile"]%string None).
  - discriminate.
  - intros x [<- | []]. right. left. reflexivity.
Defined.

(** The exception named in X9: emptying a selection brings every row
    back. *)
Lemma select_not_monotone_at_empty :
  ~ incl (select example_df (Some []) None)
         (select example_df (Some ["Mobile"%string]) None).
Proof.
  intros Hincl.
  assert (Hin : In (mkRow (mk_date 2025 7 1) "Home" 10 "Desktop" "USA")
                   (select example_df (Some []) None)) by (left; reflexivity).
  apply Hincl, select_In in Hin. destruct Hin as [_ Hk].
  vm_compute in Hk. discriminate.
Qed.

(** X10. The two narrowing steps commute and compose: filtering by
    location first and by device second, or by both in one pass, keeps
    the same rows in the same order as the callback does. *)
Theorem select_steps_commute (df : Frame) (sd sl : Selection) :
  select df sd sl = select (select df None sl) sd None /\
  select df sd sl = select (select df sd None) None sl /\
  select df sd sl = filter (keeps sd sl) df.
Proof.
  split; [|split]; rewrite !select_keeps; rewrite ?filter_filter;
    try reflexivity; apply filter_ext; intros r; unfold keeps; simpl;
    rewrite ?andb_true_r; try reflexivity; apply andb_comm.
Qed.

(** ** The three tables *)

Lemma Permutation_filter_rows {A : Type} (f : A -> bool) (l1 l2 : list A) :
  Permutation l1 l2 -> Permutation (filter f l1) (filter f l2).
Proof.
  induction 1 as [|x l1 l2 _ IH|x y l|l1 l2 l3 _ IH1 _ IH2]; simpl.
  - constructor.
  - destruct (f x); [constructor|]; exact IH.
  - destruct (f x), (f y); try reflexivity. apply perm_swap.
  - exact (Permutation_trans IH1 IH2).
Qed.

Lemma sorted_same_elements {K : Type} `{KeyOrder K} (l1 l2 : list K) :
  StronglySorted key_lt l1 -> StronglySorted key_lt l2 ->
  (forall x, In x l1 <-> In x l2) -> l1 = l2.
Proof.
  intros H1. revert l2. induction H1 as [|a l1 Hs1 IH Ha]; intros l2 H2 Hin.
  - destruct l2 as [|b l2]; [reflexivity|].
    exfalso. apply (Hin b). left. reflexivity.
  - inversion H2 as [|b l2' Hs2 Hb]; subst.
    + exfalso. apply (Hin a). left. reflexivity.
    + rewrite Forall_forall in Ha, Hb.
      assert (Hab : a = b).
      { destruct (proj1 (Hin a) (or_introl eq_refl)) as [E | Ea]; [auto|].
        destruct (proj2 (Hin b) (or_introl eq_refl)) as [E | Eb]; [auto|].
        pose proof (key_ltb_asym _ _ (Ha b Eb)) as Hn.
        pose proof (Hb a Ea) as Hp. unfold key_lt in Hp. congruence. }
      subst b. f_equal. apply IH; [exact Hs2|].
      intros x. split; intros Hx.
      * destruct (proj1 (Hin x) (or_intror Hx)) as [E | Hx']; [|exact Hx'].
        subst x. elim (key_lt_neq _ _ (Ha a Hx)). reflexivity.
      * destruct (proj2 (Hin x) (or_intror Hx)) as [E | Hx']; [|exact Hx'].
        subst x. elim (key_lt_neq _ _ (Hb a Hx)). reflexivity.
Qed.

Lemma groupby_sum_perm {K : Type} `{KeyOrder K} (key : Row -> K) (fr1 fr2 : Frame) :
  Permutation fr1 fr2 -> groupby_sum key fr1 = groupby_sum key fr2.
Proof.
  intros Hp. unfold groupby_sum.
  assert (Hk : group_keys key fr1 = group_keys key fr2).
  { apply sorted_same_elements; try apply group_keys_sorted.
    intros k. rewrite !group_keys_In.
    split; intros [r [Hr E]]; exists r; (split; [|exact E]).
    - exact (Permutation_in _ Hp Hr).
    - exact (Permutation_in _ (Permutation_sym Hp) Hr). }
  rewrite Hk. apply map_ext. intros k. f_equal.
  rewrite !sum_wrap. f_equal. apply Zsum_perm, Permutation_map.
  apply Permutation_filter_rows. exact Hp.
Qed.

(** X11. The order of the rows in the base frame does not matter: a frame
    with the same rows in another order gives the same three tables, for
    every pair of selections. *)
Theorem update_dashboard_ignores_row_order (df df' : Frame) (sd sl : Selection) :
  Permutation df df' ->
  update_dashboard df sd sl = update_dashboard df' sd sl.
Proof.
  intros Hp. unfold update_dashboard, aggregate.
  assert (Hs : Permutation (select df sd sl) (select df' sd sl)).
  { rewrite !select_keeps. apply Permutation_filter_rows. exact Hp. }
  rewrite (groupby_sum_perm date _ _ Hs), (groupby_sum_perm page _ _ Hs),
    (groupby_sum_perm device _ _ Hs).
  reflexivity.
Qed.

Lemma update_dashboard_ignores_row_order_witness :
  update_dashboard tie_df None None = update_dashboard (rev tie_df) None None.
Proof.
  apply (update_dashboard_ignores_row_order tie_df (rev tie_df) None None).
  apply Permutation_rev.
Defined.

Lemma groupby_sum_nil_iff {K : Type} `{KeyOrder K} (key : Row -> K) (fr : Frame) :
  groupby_sum key fr = [] <-> fr = [].
Proof.
  split; [|intros ->; reflexivity].
  destruct fr as [|r fr]; [reflexivity|]. intros Hnil. exfalso.
  assert (Hin : In (key r) (group_keys key (r :: fr)))
    by (apply group_keys_In; exists r; split; [left|]; reflexivity).
  rewrite <- groupby_sum_keys, Hnil in Hin. exact Hin.
Qed.

(** X12. A table is empty only when no row survives: each of the three
    tables is empty exactly when the selection is. *)
Theorem tables_empty_iff_no_row (df : Frame) (sd sl : Selection) :
  let out := update_dashboard df sd sl in
  (traffic_by_date out = [] <-> select df sd sl = []) /\
  (top_pages out = [] <-> select df sd sl = []) /\
  (device_data out = [] <-> select df sd sl = []).
Proof.
  simpl. split; [|split]; try apply groupby_sum_nil_iff.
  rewrite <- (groupby_sum_nil_iff page). split; intros Hnil.
  - apply Permutation_nil. rewrite <- Hnil. apply sort_values_desc_perm.
  - rewrite Hnil. reflexivity.
Qed.

(** X14. The pages of the top-pages table and the devices of the device
    table are exactly those of the surviving rows; a page or device whose
    visits are all zero is listed too. *)
Theorem table_keys_are_surviving_values (df : Frame) (sd sl : Selection) :
  let sel := select df sd sl in
  let out := update_dashboard df sd sl in
  (forall p, In p (keys (top_pages out)) <-> In p (map page sel)) /\
  (forall d, In d (keys (device_data out)) <-> In d (map device sel)).
Proof.
  simpl. split.
  - intros p. rewrite in_map_iff.
    assert (Hp : Permutation (keys (sort_values_desc (groupby_sum page (select df sd sl))))
                   (group_keys page (select df sd sl))).
    { rewrite <- groupby_sum_keys. apply Permutation_map, sort_values_desc_perm. }
    split.
    + intros Hin. apply (Permutation_in _ Hp), group_keys_In in Hin.
      destruct Hin as [r [Hr E]]. exists r. split; assumption.
    + intros [r [E Hr]]. apply (Permutation_in _ (Permutation_sym Hp)).
      apply group_keys_In. exists r. split; assumption.
  - intros d. rewrite groupby_sum_keys, group_keys_In, in_map_iff.
    split; intros [r [H1 H2]]; exists r; split; assumption.
Qed.

Lemma select_coordinates (df df' : Frame) (sd sl : Selection) :
  map coordinates df = map coordinates df' ->
  map coordinates (select df sd sl) = map coordinates (select df' sd sl).
Proof.
  intros Hc. rewrite !select_keeps.
  set (kc := fun c : Timestamp * string * string * string =>
               (negb (truthy sd) || isin (allowed sd) (snd (fst c)))
               && (negb (truthy sl) || isin (allowed sl) (snd c))).
  assert (E : forall l, map coordinates (filter (keeps sd sl) l) =
                        filter kc (map coordinates l)).
  { intros l. rewrite (filter_map_swap kc coordinates). reflexivity. }
  rewrite !E, Hc. reflexivity.
Qed.

Lemma group_keys_coordinates {K : Type} `{Key K}
  (proj : Timestamp * string * string * string -> K) (fr fr' : Frame) :
  map coordinates fr = map coordinates fr' ->
  group_keys (fun r => proj (coordinates r)) fr =
  group_keys (fun r => proj (coordinates r)) fr'.
Proof.
  intros Hc. unfold group_keys.
  rewrite <- !(map_map coordinates proj), Hc. reflexivity.
Qed.

Lemma sort_values_desc_keys_perm {K : Type} (t : list (K * Z)) :
  Permutation (keys (sort_values_desc t)) (keys t).
Proof. apply Permutation_map, sort_values_desc_perm. Qed.

(** X15. Which keys the tables list does not depend on the visit counts:
    two frames that agree on date, page, device and location of every row
    give the same dates in the trend table and the same devices in the
    device table, in the same order, and the same pages in the top-pages
    table, whose order alone follows the totals. *)
Theorem table_keys_ignore_visits (df df' : Frame) (sd sl : Selection) :
  map coordinates df = map coordinates df' ->
  keys (traffic_by_date (update_dashboard df sd sl)) =
    keys (traffic_by_date (update_dashboard df' sd sl)) /\
  keys (device_data (update_dashboard df sd sl)) =
    keys (device_data (update_dashboard df' sd sl)) /\
  Permutation (keys (top_pages (update_dashboard df sd sl)))
              (keys (top_pages (update_dashboard df' sd sl))).
Proof.
  intros Hc. apply (select_coordinates _ _ sd sl) in Hc.
  unfold update_dashboard, aggregate. simpl.
  rewrite !groupby_sum_keys. split; [|split].
  - exact (group_keys_coordinates (fun c => fst (fst (fst c))) _ _ Hc).
  - exact (group_keys_coordinates (fun c => snd (fst c)) _ _ Hc).
  - rewrite !sort_values_desc_keys_perm, !groupby_sum_keys.
    rewrite (group_keys_coordinates (fun c => snd (fst (fst c))) _ _ Hc).
    reflexivity.
Qed.

Lemma table_keys_ignore_visits_witness :
  keys (traffic_by_date (update_dashboard example_df None None)) =
    keys (traffic_by_date
            (update_dashboard
               (map (fun r => mkRow (date r) (page r) 0 (device r) (location r))
                    example_df) None None)) /\
  keys (device_data (update_dashboard example_df None None)) =
    keys (device_data
            (update_dashboard
               (map (fun r => mkRow (date r) (page r) 0 (device r) (location r))
                    example_df) None None)) /\
  Permutation
    (keys (top_pages (update_dashboard example_df None None)))
    (keys (top_pages
            (update_dashboard
               (map (fun r => mkRow (date r) (page r) 0 (device r) (location r))
                    example_df) None None))).
Proof.
  apply (table_keys_ignore_visits example_df
           (map (fun r => mkRow (date r) (page r) 0 (device r) (location r))
                example_df) None None).
  reflexivity.
Defined.

(** X16. The device table comes in ascending order of the device name,
    and [(d, t)] is one of its rows exactly when a surviving row has
    device [d] and [t] is the 64-bit sum of the visits of that device. *)
Theorem device_table_sorted_by_name (df : Frame) (sd sl : Selection) :
  let sel := select df sd sl in
  let dev := device_data (update_dashboard df sd sl) in
  StronglySorted (fun a b => String.ltb a b = true) (keys dev) /\
  forall d t,
    In (d, t) dev <->
    In d (map device sel) /\ t = Int64.sum (map visits (group device sel d)).
Proof.
  simpl. split.
  - rewrite groupby_sum_keys.
    apply (StronglySorted_weaken key_lt); [|apply group_keys_sorted].
    intros a b _ _ Hab. exact Hab.
  - intros d t. rewrite groupby_sum_In, in_map_iff.
    split; intros [[r [H1 H2]] Ht]; (split; [exists r; split; assumption | exact Ht]).
Qed.

(** X17. Sorting only rearranges: [(p, t)] is a row of the top-pages table
    exactly when a surviving row has page [p] and [t] is the 64-bit sum of
    the visits of that page, and the table has one row per distinct
    page. *)
Theorem top_pages_rows (df : Frame) (sd sl : Selection) :
  let sel := select df sd sl in
  let top := top_pages (update_dashboard df sd sl) in
  (forall p t,
     In (p, t) top <->
     In p (map page sel) /\ t = Int64.sum (map visits (group page sel p))) /\
  List.length top = List.length (unique (map page sel)).
Proof.
  simpl. split.
  - intros p t.
    assert (Hp := sort_values_desc_perm (groupby_sum page (select df sd sl))).
    split.
    + intros Hin. apply (Permutation_in _ Hp), groupby_sum_In in Hin.
      destruct Hin as [[r [H1 H2]] Ht]. split; [|exact Ht].
      apply in_map_iff. exists r. split; assumption.
    + intros [Hin Ht]. apply (Permutation_in _ (Permutation_sym Hp)).
      apply groupby_sum_In. split; [|exact Ht].
      apply in_map_iff in Hin. destruct Hin as [r [H1 H2]].
      exists r. split; assumption.
  - rewrite (Permutation_length (sort_values_desc_perm _)).
    unfold groupby_sum. rewrite length_map.
    apply Permutation_length, group_keys_perm.
Qed.

Lemma groupby_sum_bounded {K : Type} `{KeyOrder K} (key : Row -> K) (fr : Frame) :
  Forall (fun r => 0 <= visits r) fr ->
  Zsum (map visits fr) <= Int64.max_int ->
  Forall (fun t => 0 <= t <= Zsum (map visits fr)) (totals (groupby_sum key fr)).
Proof.
  intros Hpos Hmax. rewrite groupby_sum_totals, Forall_forall. intros t Ht.
  apply in_map_iff in Ht. destruct Ht as [k [<- _]].
  pose proof (Zsum_group_bounds key fr k Hpos) as Hb.
  rewrite sum_wrap, wrap_in_range; [exact Hb|].
  unfold Int64.in_range, Int64.min_int, Int64.max_int in *. lia.
Qed.

(** X19. When the surviving visits are non-negative and add up to at most
    2^63 - 1, no total in any table is negative or exceeds the sum of the
    surviving visits. *)
Theorem totals_bounded_by_grand_total (df : Frame) (sd sl : Selection) :
  Forall (fun r => 0 <= visits r) (select df sd sl) ->
  Zsum (map visits (select df sd sl)) <= Int64.max_int ->
  let bounded := fun t => 0 <= t <= Zsum (map visits (select df sd sl)) in
  Forall bounded (totals (traffic_by_date (update_dashboard df sd sl))) /\
  Forall bounded (totals (top_pages (update_dashboard df sd sl))) /\
  Forall bounded (totals (device_data (update_dashboard df sd sl))).
Proof.
  intros Hpos Hmax bounded. unfold update_dashboard, aggregate. simpl.
  split; [|split]; try (apply groupby_sum_bounded; assumption).
  rewrite Forall_forall. intros t Ht.
  apply (Permutation_in _ (Permutation_map snd (sort_values_desc_perm _))) in Ht.
  revert t Ht. apply Forall_forall, (groupby_sum_bounded page); assumption.
Qed.

Lemma totals_bounded_by_grand_total_witness :
  Forall (fun t => 0 <= t <= 35)
    (totals (top_pages (update_dashboard example_df None None))).
Proof.
  apply (totals_bounded_by_grand_total example_df None None).
  - repeat constructor; simpl; lia.
  - vm_compute. discriminate.
Defined.

Lemma wrap_eq_mod (a b : Z) :
  Int64.wrap a = Int64.wrap b -> (a - b) mod 2 ^ 64 = 0.
Proof.
  unfold Int64.wrap. intros E.
  replace (a - b) with ((a + 2 ^ 63) - (b + 2 ^ 63)) by lia.
  rewrite Zminus_mod.
  replace ((a + 2 ^ 63) mod 2 ^ 64) with ((b + 2 ^ 63) mod 2 ^ 64) by lia.
  rewrite Z.sub_diag. reflexivity.
Qed.

(** X20. Even when sums leave the 64-bit range nothing but whole
    wrap-arounds is lost: for each table the totals and the surviving
    visits add up to numbers that differ by a multiple of 2^64. *)
Theorem counts_conserved_modulo_wrap (df : Frame) (sd sl : Selection) :
  let sel := select df sd sl in
  let out := update_dashboard df sd sl in
  (Zsum (totals (traffic_by_date out)) - Zsum (map visits sel)) mod 2 ^ 64 = 0 /\
  (Zsum (totals (top_pages out)) - Zsum (map visits sel)) mod 2 ^ 64 = 0 /\
  (Zsum (totals (device_data out)) - Zsum (map visits sel)) mod 2 ^ 64 = 0.
Proof.
  simpl.
  assert (Hg : forall (K : Type) (HK : Key K) (HO : KeyOrder K) (key : Row -> K),
             (Zsum (totals (groupby_sum key (select df sd sl)))
              - Zsum (map visits (select df sd sl))) mod 2 ^ 64 = 0).
  { intros K HK HO key. apply wrap_eq_mod. rewrite <- !sum_wrap.
    apply groupby_sum_conserves_wrapped. }
  split; [|split]; try apply Hg; try typeclasses eauto.
  unfold totals.
  rewrite (Zsum_perm _ _ (Permutation_map snd (sort_values_desc_perm _))).
  apply (Hg string _ _ page).
Qed.
